(** * zerocfg: the node record and the option modifiers (node.go)

    A shallow embedding of [node.go]: the [node] struct, its two read-only
    methods [pathName] and [source], and the option modifiers [Alias],
    [Secret], [Group] and [Required].

    Conventions of the embedding.
    - A Go [string] is a sequence of bytes: [String.string].
    - A slice [[]string] is a [list string]; [append(s, x)] is [s ++ [x]].
    - A method or closure taking [n *node] is a computation in the monad
      [M]: it receives the state of the node [n] points to and gives back
      either a result together with the state it leaves the node in, or
      [Panic] when the call panics. A pointer is modelled by what it
      points to, so node and group pointers are not nil here. *)

From Stdlib Require Import String List Lia.
From Stdlib Require Import Ascii Permutation.
Import ListNotations.
Local Open Scope string_scope.

(** ** Outcome of a call *)

Inductive result (A : Type) : Type :=
| Ok (a : A)
| Panic.
Arguments Ok {A} a.
Arguments Panic {A}.

(** ** The Value interface (node.go, lines 41-44) *)

(** Go's [error]: [None] is the nil error, [Some msg] an error value. *)
Definition error := option string.

Module Iface.

(** An interface value: some concrete state together with its two
    methods. [Set] may change the state and reports an error; [Type]
    only reads. ([Set] and [Type] are reserved words, hence the suffix.) *)
Record Value : Type := mkValue {
  state : Type;
  cur : state;
  Set_ : string -> state -> error * state;
  Type_ : state -> string
}.

End Iface.

(** ** The node struct (node.go, lines 3-15) *)

Definition noSource : string := "default".

Record node : Type := mkNode {
  Name : string;
  Description : string;
  Aliases : list string;
  Value : option Iface.Value;
  setSource : string;
  isSecret : bool;
  isRequired : bool;
  caller : string
}.

(** Go's zero value of the struct: what a composite literal leaves in
    every field it does not mention. *)
Definition zero_node : node :=
  {| Name := ""; Description := ""; Aliases := []; Value := None;
     setSource := ""; isSecret := false; isRequired := false; caller := "" |}.

(** Field assignments [n.F = v]. *)
Definition set_Name (v : string) (n : node) : node :=
  {| Name := v; Description := Description n; Aliases := Aliases n;
     Value := Value n; setSource := setSource n; isSecret := isSecret n;
     isRequired := isRequired n; caller := caller n |}.

Definition set_Aliases (v : list string) (n : node) : node :=
  {| Name := Name n; Description := Description n; Aliases := v;
     Value := Value n; setSource := setSource n; isSecret := isSecret n;
     isRequired := isRequired n; caller := caller n |}.

Definition set_isSecret (v : bool) (n : node) : node :=
  {| Name := Name n; Description := Description n; Aliases := Aliases n;
     Value := Value n; setSource := setSource n; isSecret := v;
     isRequired := isRequired n; caller := caller n |}.

Definition set_isRequired (v : bool) (n : node) : node :=
  {| Name := Name n; Description := Description n; Aliases := Aliases n;
     Value := Value n; setSource := setSource n; isSecret := isSecret n;
     isRequired := v; caller := caller n |}.

(** ** Computations on a node *)

Definition M (A : Type) : Type := node -> result (A * node).

Definition ret {A} (a : A) : M A := fun n => Ok (a, n).

Definition bind {A B} (c : M A) (k : A -> M B) : M B :=
  fun n => match c n with
           | Ok (a, n') => k a n'
           | Panic => Panic
           end.

(** Read a field, and assign through the pointer. *)
Definition gets {A} (f : node -> A) : M A := fun n => Ok (f n, n).
Definition modify (f : node -> node) : M unit := fun n => Ok (tt, f n).

Declare Scope node_scope.
Delimit Scope node_scope with node.
Notation "x <- c ;; k" := (bind c (fun x => k))
  (at level 61, c at next level, right associativity) : node_scope.
Notation "c ;; k" := (bind c (fun _ => k))
  (at level 61, right associativity) : node_scope.
Local Open Scope node_scope.

(** ** Methods of node (node.go, lines 17-31) *)

Definition pathName : M string :=
  c <- gets caller ;;
  if (c =? "")%string then gets Name
  else
    name <- gets Name ;;
    ret (c ++ ":" ++ name).

Definition source : M string :=
  s <- gets setSource ;;
  if (s =? "")%string then ret noSource
  else gets setSource.

(** ** Option modifiers (node.go, lines 52-102) *)

Definition OptNode : Type := M unit.

(** Calling the nil function value panics. *)
Definition nilOptNode : OptNode := fun _ => Panic.

Definition Alias (alias : string) : OptNode :=
  aliases <- gets Aliases ;;
  modify (set_Aliases (aliases ++ [alias])).

Definition Secret : OptNode :=
  modify (set_isSecret true).

Definition Required : OptNode :=
  modify (set_isRequired true).

(** Modelled from the spec: the struct [Grp] is declared outside node.go.
    The spec describes a group as a key prefix together with the option
    modifiers it cascades, kept in declared order. *)
Record Grp : Type := mkGrp {
  prefix : string;
  opts : list OptNode
}.

(** Modelled from the spec: the method [Grp.key] is declared outside
    node.go. The spec gives the qualified name as
    prefix + "." + localName. *)
Definition key (g : Grp) (localName : string) : string :=
  prefix g ++ "." ++ localName.

(** Running a sequence of modifiers on one node, first to last. *)
Fixpoint runOpts (l : list OptNode) : M unit :=
  match l with
  | [] => ret tt
  | opt :: rest => opt ;; runOpts rest
  end.

(** Modelled from the spec: the method [Grp.applyOpts] is declared outside
    node.go. The spec has it apply the group's stored modifiers to the
    node in the group's declared order. *)
Definition applyOpts (g : Grp) : M unit := runOpts (opts g).

Definition Group (g : Grp) : OptNode :=
  name <- gets Name ;;
  modify (set_Name (key g name)) ;;
  applyOpts g.

(** Applying the same modifier [k] times in a row. *)
Fixpoint times (k : nat) (m : OptNode) : M unit :=
  match k with
  | O => ret tt
  | S k' => m ;; times k' m
  end.

(** ** Classes of modifiers *)

(** The three modifiers that do not involve a group. *)
Inductive simple : OptNode -> Prop :=
| simple_Alias (a : string) : simple (Alias a)
| simple_Secret : simple Secret
| simple_Required : simple Required.

(** The modifiers that can be built from the four constructors of
    node.go: a group's cascaded modifiers are themselves built-in. *)
Inductive builtin : OptNode -> Prop :=
| builtin_Alias (a : string) : builtin (Alias a)
| builtin_Secret : builtin Secret
| builtin_Required : builtin Required
| builtin_Group (g : Grp) : all_builtin (opts g) -> builtin (Group g)
with all_builtin : list OptNode -> Prop :=
| all_builtin_nil : all_builtin []
| all_builtin_cons (m : OptNode) (l : list OptNode) :
    builtin m -> all_builtin l -> all_builtin (m :: l).

Scheme builtin_mut := Minimality for builtin Sort Prop
  with all_builtin_mut := Minimality for all_builtin Sort Prop.

(** A modifier that always returns and leaves [Name] as it found it. *)
Definition keeps_Name (m : OptNode) : Prop :=
  forall n, exists n', m n = Ok (tt, n') /\ Name n' = Name n.

(** Two modifiers whose exchange would reorder two different aliases. *)
Definition reorders_aliases (m1 m2 : OptNode) : Prop :=
  exists a b, a <> b /\ m1 = Alias a /\ m2 = Alias b.

(** All fields but the named one are equal. *)
Definition same_but_Aliases (n n' : node) : Prop :=
  Name n' = Name n /\ Description n' = Description n /\
  Value n' = Value n /\ setSource n' = setSource n /\
  isSecret n' = isSecret n /\ isRequired n' = isRequired n /\
  caller n' = caller n.

Definition same_but_isSecret (n n' : node) : Prop :=
  Name n' = Name n /\ Description n' = Description n /\
  Aliases n' = Aliases n /\ Value n' = Value n /\
  setSource n' = setSource n /\ isRequired n' = isRequired n /\
  caller n' = caller n.

Definition same_but_isRequired (n n' : node) : Prop :=
  Name n' = Name n /\ Description n' = Description n /\
  Aliases n' = Aliases n /\ Value n' = Value n /\
  setSource n' = setSource n /\ isSecret n' = isSecret n /\
  caller n' = caller n.

Definition same_but_Name (n n' : node) : Prop :=
  Description n' = Description n /\ Aliases n' = Aliases n /\
  Value n' = Value n /\ setSource n' = setSource n /\
  isSecret n' = isSecret n /\ isRequired n' = isRequired n /\
  caller n' = caller n.

(** ** Further notions used below *)

(** No byte of [s] is the colon that pathName puts between caller and
    Name. *)
Fixpoint colon_free (s : string) : bool :=
  match s with
  | EmptyString => true
  | String c s' => negb (Ascii.eqb c ":"%char) && colon_free s'
  end.

(** The fields no modifier of node.go assigns. *)
Definition same_provenance (n n' : node) : Prop :=
  Description n' = Description n /\ Value n' = Value n /\
  setSource n' = setSource n /\ caller n' = caller n.

(** Equal in every field, the aliases up to their order. *)
Definition alias_equiv (n n' : node) : Prop :=
  Name n' = Name n /\ Description n' = Description n /\
  Permutation (Aliases n) (Aliases n') /\ Value n' = Value n /\
  setSource n' = setSource n /\ isSecret n' = isSecret n /\
  isRequired n' = isRequired n /\ caller n' = caller n.

(** ** Sample data *)

(** An integer option value: [Set] accepts "0" and "1" only. *)
Definition bitValue : Iface.Value :=
  {| Iface.state := nat;
     Iface.cur := 0;
     Iface.Set_ := fun raw v =>
       if (raw =? "0")%string then (None, 0)
       else if (raw =? "1")%string then (None, 1)
       else (Some "invalid syntax", v);
     Iface.Type_ := fun _ => "int" |}.

Definition port : node :=
  {| Name := "port"; Description := "database port"; Aliases := ["p"];
     Value := Some bitValue; setSource := ""; isSecret := false;
     isRequired := false; caller := "" |}.

Definition port_env : node :=
  {| Name := "port"; Description := "database port"; Aliases := ["p"];
     Value := Some bitValue; setSource := "env"; isSecret := true;
     isRequired := false; caller := "main.go" |}.

Definition node_x : node := set_Name "x" zero_node.

Definition grp_a : Grp := {| prefix := "a"; opts := [] |}.
Definition grp_b : Grp := {| prefix := "b"; opts := [] |}.
Definition grp_c : Grp := {| prefix := "c"; opts := [] |}.
Definition grp_db : Grp := {| prefix := "db"; opts := [Required; Alias "d"] |}.
(** A group that cascades another group. *)
Definition grp_a_c : Grp := {| prefix := "a"; opts := [Group grp_c] |}.

(** ** Basic facts about the monad *)

Lemma bind_Ok {A B} (c : M A) (k : A -> M B) n a n' :
  c n = Ok (a, n') -> bind c k n = k a n'.
Proof. intros H. unfold bind. rewrite H. reflexivity. Qed.

Lemma bind_Panic {A B} (c : M A) (k : A -> M B) n :
  c n = Panic -> bind c k n = Panic.
Proof. intros H. unfold bind. rewrite H. reflexivity. Qed.

Lemma bind_assoc {A B C} (c : M A) (k : A -> M B) (h : B -> M C) n :
  bind (bind c k) h n = bind c (fun a => bind (k a) h) n.
Proof. unfold bind. destruct (c n) as [[a n'] |]; reflexivity. Qed.

Lemma runOpts_app l1 l2 n :
  runOpts (l1 ++ l2) n = (runOpts l1 ;; runOpts l2) n.
Proof.
  revert n. induction l1 as [| m l1 IH]; intros n; simpl.
  - reflexivity.
  - rewrite bind_assoc. unfold bind at 1 2.
    destruct (m n) as [[[] n1] |]; [apply IH | reflexivity].
Qed.

(** What each modifier of node.go computes. *)

Lemma Alias_run a n : Alias a n = Ok (tt, set_Aliases (Aliases n ++ [a]) n).
Proof. reflexivity. Qed.

Lemma Secret_run n : Secret n = Ok (tt, set_isSecret true n).
Proof. reflexivity. Qed.

Lemma Required_run n : Required n = Ok (tt, set_isRequired true n).
Proof. reflexivity. Qed.

Lemma Group_run g n : Group g n = applyOpts g (set_Name (key g (Name n)) n).
Proof. reflexivity. Qed.

(** ** pathName and source *)

Lemma pathName_run n :
  pathName n
  = Ok (if (caller n =? "")%string then Name n
        else (caller n ++ ":" ++ Name n)%string, n).
Proof.
  unfold pathName, bind, gets, ret.
  destruct (caller n =? "")%string; reflexivity.
Qed.

Lemma source_run n :
  source n
  = Ok (if (setSource n =? "")%string then noSource else setSource n, n).
Proof.
  unfold source, bind, gets, ret.
  destruct (setSource n =? "")%string; reflexivity.
Qed.

(** C1. For every node, pathName returns the node's Name when caller is
    the empty string, and caller + ":" + Name when caller is not empty;
    the node is left as it was. *)
Theorem pathName_spec (n : node) :
  (caller n = "" -> pathName n = Ok (Name n, n)) /\
  (caller n <> "" -> pathName n = Ok (caller n ++ ":" ++ Name n, n)).
Proof.
  rewrite pathName_run.
  destruct (String.eqb_spec (caller n) "") as [E | D]; split; intros H.
  - reflexivity.
  - contradiction.
  - contradiction.
  - reflexivity.
Qed.

Lemma pathName_spec_witness :
  pathName port = Ok ("port", port) /\
  pathName port_env = Ok ("main.go:port", port_env).
Proof.
  split.
  - apply (proj1 (pathName_spec port)). reflexivity.
  - apply (proj2 (pathName_spec port_env)). discriminate.
Defined.

(** C2. For every node, source returns setSource when it is not empty and
    the literal "default" when it is empty; a node whose setSource is still
    at its zero value, as in a freshly built node, reports "default". *)
Theorem source_spec (n : node) :
  (setSource n <> "" -> source n = Ok (setSource n, n)) /\
  (setSource n = "" -> source n = Ok ("default", n)) /\
  (setSource n = setSource zero_node -> source n = Ok ("default", n)) /\
  source zero_node = Ok ("default", zero_node).
Proof.
  assert (E : setSource n = "" -> source n = Ok ("default", n)).
  { intros H. rewrite source_run, H. reflexivity. }
  repeat split.
  - intros H. rewrite source_run.
    destruct (String.eqb_spec (setSource n) ""); [contradiction | reflexivity].
  - exact E.
  - exact E.
Qed.

Lemma source_spec_witness :
  source port_env = Ok ("env", port_env) /\
  source port = Ok ("default", port) /\
  source (set_Name "timeout" zero_node)
    = Ok ("default", set_Name "timeout" zero_node).
Proof.
  split; [| split].
  - apply (proj1 (source_spec port_env)). discriminate.
  - apply (proj1 (proj2 (source_spec port))). reflexivity.
  - apply (proj1 (proj2 (proj2 (source_spec (set_Name "timeout" zero_node))))).
    reflexivity.
Defined.

(** C9. pathName and source have no side effect and are deterministic:
    each returns a string and leaves the node exactly as it found it
    (all eight fields), and calling either twice in a row returns the
    same string twice. *)
Theorem pathName_source_pure (n : node) :
  exists s t : string,
    pathName n = Ok (s, n) /\
    source n = Ok (t, n) /\
    (x <- pathName ;; y <- pathName ;; ret (x, y)) n = Ok ((s, s), n) /\
    (x <- source ;; y <- source ;; ret (x, y)) n = Ok ((t, t), n).
Proof.
  pose proof (pathName_run n) as Hs. pose proof (source_run n) as Ht.
  eexists. eexists. split; [exact Hs | split; [exact Ht | split]].
  - rewrite (bind_Ok _ _ _ _ _ Hs), (bind_Ok _ _ _ _ _ Hs). reflexivity.
  - rewrite (bind_Ok _ _ _ _ _ Ht), (bind_Ok _ _ _ _ _ Ht). reflexivity.
Qed.

(** ** Alias, Secret and Required *)

(** C6. For any node and any strings p and q, Alias(p) followed by
    Alias(q) leaves the aliases as the former entries, then p, then q;
    nothing is checked or removed, so empty and repeated strings are
    appended like any other. *)
Theorem Alias_Alias (n : node) (p q : string) :
  (exists n', (Alias p ;; Alias q) n = Ok (tt, n') /\
     Aliases n' = (Aliases n ++ [p; q])%list /\ same_but_Aliases n n') /\
  (exists n', (Alias p ;; Alias p) n = Ok (tt, n') /\
     Aliases n' = (Aliases n ++ [p; p])%list /\ same_but_Aliases n n') /\
  (exists n', (Alias "" ;; Alias "") n = Ok (tt, n') /\
     Aliases n' = (Aliases n ++ [""; ""])%list /\ same_but_Aliases n n').
Proof.
  assert (H : forall a b, exists n',
    (Alias a ;; Alias b) n = Ok (tt, n') /\
    Aliases n' = (Aliases n ++ [a; b])%list /\ same_but_Aliases n n').
  { intros a b. eexists. split; [| split].
    - rewrite (bind_Ok _ _ _ _ _ (Alias_run a n)). apply Alias_run.
    - simpl. rewrite <- app_assoc. reflexivity.
    - repeat split. }
  auto.
Qed.

(** On the node "port", whose only alias is "p": a second "p" and an
    empty alias are both taken as they come. *)
Lemma Alias_Alias_unchecked :
  exists n', (Alias "p" ;; Alias "") port = Ok (tt, n') /\
             Aliases n' = ["p"; "p"; ""].
Proof. eexists. split; reflexivity. Qed.

(** C10. Each modifier other than Group assigns one field and leaves the
    others as they were: Alias(a) only extends Aliases, Secret only sets
    isSecret, Required only sets isRequired; Name, Description, Value,
    setSource and caller are the same afterwards in every case. *)
Theorem simple_modifiers_frame (n : node) (a : string) :
  (exists n', Alias a n = Ok (tt, n') /\
     Aliases n' = (Aliases n ++ [a])%list /\ same_but_Aliases n n') /\
  (exists n', Secret n = Ok (tt, n') /\
     isSecret n' = true /\ same_but_isSecret n n') /\
  (exists n', Required n = Ok (tt, n') /\
     isRequired n' = true /\ same_but_isRequired n n').
Proof.
  split; [| split]; eexists; (split; [reflexivity |]);
    (split; [reflexivity |]); repeat split.
Qed.

(** ** Sequences of modifiers *)

Lemma simple_builtin m : simple m -> builtin m.
Proof. intros []; constructor. Qed.

Lemma simple_keeps_Name m : simple m -> keeps_Name m.
Proof. intros [a | |] n; eexists; split; reflexivity. Qed.

Lemma runOpts_keeps_Name l :
  Forall keeps_Name l ->
  forall n, exists n', runOpts l n = Ok (tt, n') /\ Name n' = Name n.
Proof.
  induction 1 as [| m l Hm _ IH]; intros n; simpl.
  - exists n. split; reflexivity.
  - destruct (Hm n) as (n1 & E1 & N1).
    destruct (IH n1) as (n2 & E2 & N2).
    exists n2. rewrite (bind_Ok _ _ _ _ _ E1). split; [exact E2 | congruence].
Qed.

(** A group whose cascaded modifiers keep the name qualifies it once. *)
Lemma Group_keeps_opts g n :
  Forall keeps_Name (opts g) ->
  exists n', Group g n = Ok (tt, n') /\ Name n' = key g (Name n).
Proof.
  intros H. rewrite Group_run. unfold applyOpts.
  destruct (runOpts_keeps_Name _ H (set_Name (key g (Name n)) n))
    as (n' & E & N).
  exists n'. split; [exact E | exact N].
Qed.

Section BuiltinInvariant.

(** A relation between the node before and after, which every
    assignment made by node.go respects. *)
Variable R : node -> node -> Prop.
Hypothesis R_refl : forall n, R n n.
Hypothesis R_trans : forall n1 n2 n3, R n1 n2 -> R n2 n3 -> R n1 n3.
Hypothesis R_Name : forall v n, R n (set_Name v n).
Hypothesis R_Aliases : forall v n, R n (set_Aliases v n).
Hypothesis R_isSecret : forall n, R n (set_isSecret true n).
Hypothesis R_isRequired : forall n, R n (set_isRequired true n).

Let holds (c : M unit) : Prop :=
  forall n, exists n', c n = Ok (tt, n') /\ R n n'.

Lemma builtin_respects m : builtin m -> holds m.
Proof.
  intros H.
  induction H using builtin_mut with (P0 := fun l => holds (runOpts l));
    unfold holds in *; intros n.
  - eexists; split; [apply Alias_run | apply R_Aliases].
  - eexists; split; [apply Secret_run | apply R_isSecret].
  - eexists; split; [apply Required_run | apply R_isRequired].
  - rewrite Group_run. unfold applyOpts.
    destruct (IHbuiltin (set_Name (key g (Name n)) n)) as (n' & E & Hn').
    exists n'. split; [exact E |].
    eapply R_trans; [apply R_Name | exact Hn'].
  - exists n. split; [reflexivity | apply R_refl].
  - simpl. destruct (IHbuiltin n) as (n1 & E1 & H1).
    destruct (IHbuiltin0 n1) as (n2 & E2 & H2).
    exists n2. rewrite (bind_Ok _ _ _ _ _ E1).
    split; [exact E2 | eapply R_trans; eassumption].
Qed.

End BuiltinInvariant.

(** ** Group *)

(** C3. Applying Group(g) does two things in this order: the node's Name
    becomes g.key(Name), and then g.applyOpts runs on the node; so the
    first cascaded modifier, and every later one, starts from the renamed
    node, and a group that cascades nothing only renames. *)
Theorem Group_two_steps (g : Grp) (n : node) :
  exists n0 : node,
    Name n0 = key g (Name n) /\ same_but_Name n n0 /\
    Group g n = applyOpts g n0 /\
    (forall m rest, opts g = m :: rest ->
       Group g n = (m ;; runOpts rest) n0) /\
    (opts g = [] -> Group g n = Ok (tt, n0)).
Proof.
  exists (set_Name (key g (Name n)) n).
  split; [reflexivity | split; [repeat split | split; [| split]]].
  - apply Group_run.
  - intros m rest E. rewrite Group_run. unfold applyOpts. rewrite E. reflexivity.
  - intros E. rewrite Group_run. unfold applyOpts. rewrite E. reflexivity.
Qed.

Lemma Group_two_steps_witness :
  (exists n0, Name n0 = "a.x" /\
              Group grp_a_c node_x = (Group grp_c ;; runOpts []) n0) /\
  (exists n0, Name n0 = "a.x" /\ Group grp_a node_x = Ok (tt, n0)).
Proof.
  split.
  - destruct (Group_two_steps grp_a_c node_x) as (n0 & N & _ & _ & H & _).
    exists n0. split; [exact N | apply H; reflexivity].
  - destruct (Group_two_steps grp_a node_x) as (n0 & N & _ & _ & _ & H).
    exists n0. split; [exact N | apply H; reflexivity].
Defined.

(** The order of the two steps can be seen when the group cascades
    another group: renaming first gives "c.a.x", renaming last would
    give "a.c.x". *)
Lemma Group_order_observable :
  Group grp_a_c node_x = Ok (tt, set_Name "c.a.x" node_x) /\
  (applyOpts grp_a_c ;; name <- gets Name ;; modify (set_Name (key grp_a_c name)))
     node_x = Ok (tt, set_Name "a.c.x" node_x).
Proof. split; reflexivity. Qed.

(** C4, as stated, fails: with a first group of prefix "a" that cascades
    Group of a group of prefix "c", the node named "x" ends up named
    "b.c.a.x". *)
Lemma Group_nesting_cex :
  Name node_x = "x" /\ prefix grp_a_c = "a" /\ prefix grp_b = "b" /\
  builtin (Group grp_a_c) /\ builtin (Group grp_b) /\
  exists n', (Group grp_a_c ;; Group grp_b) node_x = Ok (tt, n') /\
             Name n' = "b.c.a.x" /\
             (Name n' =? "b.a.x")%string = false.
Proof.
  repeat (split; [first [reflexivity | repeat constructor] |]).
  eexists. repeat split.
Qed.

(** C4, amended. For any node named "x" and groups g1 of prefix "a" and
    g2 of prefix "b" whose cascaded modifiers all return and leave Name
    alone, Group(g1) followed by Group(g2) returns with Name "b.a.x". *)
Theorem Group_nesting (n : node) (g1 g2 : Grp) :
  Name n = "x" -> prefix g1 = "a" -> prefix g2 = "b" ->
  Forall keeps_Name (opts g1) -> Forall keeps_Name (opts g2) ->
  exists n', (Group g1 ;; Group g2) n = Ok (tt, n') /\ Name n' = "b.a.x".
Proof.
  intros Hx Ha Hb K1 K2.
  destruct (Group_keeps_opts g1 n K1) as (n1 & E1 & N1).
  destruct (Group_keeps_opts g2 n1 K2) as (n2 & E2 & N2).
  exists n2. rewrite (bind_Ok _ _ _ _ _ E1). split; [exact E2 |].
  rewrite N2, N1, Hx. unfold key. rewrite Ha, Hb. reflexivity.
Qed.

Lemma Group_nesting_witness :
  exists n', (Group grp_a ;; Group grp_b) node_x = Ok (tt, n') /\
             Name n' = "b.a.x".
Proof.
  apply (Group_nesting node_x grp_a grp_b); try reflexivity; constructor.
Defined.

(** ** Flags *)

Lemma times_Secret k n :
  1 <= k -> times k Secret n = Ok (tt, set_isSecret true n).
Proof.
  intros Hk. destruct k as [| k]; [lia | clear Hk].
  revert n. induction k as [| k IH]; intros n.
  - reflexivity.
  - change (times (S (S k)) Secret n) with (times (S k) Secret (set_isSecret true n)).
    rewrite IH. reflexivity.
Qed.

Lemma times_Required k n :
  1 <= k -> times k Required n = Ok (tt, set_isRequired true n).
Proof.
  intros Hk. destruct k as [| k]; [lia | clear Hk].
  revert n. induction k as [| k IH]; intros n.
  - reflexivity.
  - change (times (S (S k)) Required n)
      with (times (S k) Required (set_isRequired true n)).
    rewrite IH. reflexivity.
Qed.

Lemma builtin_keeps_isSecret m n :
  builtin m -> isSecret n = true ->
  exists n', m n = Ok (tt, n') /\ isSecret n' = true.
Proof.
  intros Hm Hn.
  destruct (builtin_respects
              (fun n n' => isSecret n = true -> isSecret n' = true))
    with (m := m) (n := n) as (n' & E & H); auto.
  exists n'. auto.
Qed.

Lemma builtin_keeps_isRequired m n :
  builtin m -> isRequired n = true ->
  exists n', m n = Ok (tt, n') /\ isRequired n' = true.
Proof.
  intros Hm Hn.
  destruct (builtin_respects
              (fun n n' => isRequired n = true -> isRequired n' = true))
    with (m := m) (n := n) as (n' & E & H); auto.
  exists n'. auto.
Qed.

(** C5. Secret is idempotent and monotone: applied one or more times to
    any node it returns with isSecret true (and twice does what once
    does), and no built-in modifier, a Group of built-in modifiers
    included, takes isSecret from true back to false. The same holds for
    Required and isRequired. *)
Theorem Secret_Required_monotone :
  (forall k n, 1 <= k ->
     exists n', times k Secret n = Ok (tt, n') /\ isSecret n' = true) /\
  (forall n, (Secret ;; Secret) n = Secret n) /\
  (forall m n, builtin m -> isSecret n = true ->
     exists n', m n = Ok (tt, n') /\ isSecret n' = true) /\
  (forall k n, 1 <= k ->
     exists n', times k Required n = Ok (tt, n') /\ isRequired n' = true) /\
  (forall n, (Required ;; Required) n = Required n) /\
  (forall m n, builtin m -> isRequired n = true ->
     exists n', m n = Ok (tt, n') /\ isRequired n' = true).
Proof.
  repeat split.
  - intros k n Hk. eexists. split; [apply times_Secret; exact Hk | reflexivity].
  - exact builtin_keeps_isSecret.
  - intros k n Hk. eexists. split; [apply times_Required; exact Hk | reflexivity].
  - exact builtin_keeps_isRequired.
Qed.

Lemma Secret_Required_monotone_witness :
  (exists n', times 3 Secret port = Ok (tt, n') /\ isSecret n' = true) /\
  (exists n', Group grp_db port_env = Ok (tt, n') /\ isSecret n' = true) /\
  (exists n', times 2 Required port = Ok (tt, n') /\ isRequired n' = true) /\
  (exists n', Alias "q" (set_isRequired true port) = Ok (tt, n') /\
              isRequired n' = true).
Proof.
  destruct Secret_Required_monotone as (S1 & _ & S2 & R1 & _ & R2).
  split; [| split; [| split]].
  - apply (S1 3 port). lia.
  - apply (S2 (Group grp_db) port_env); [repeat constructor | reflexivity].
  - apply (R1 2 port). lia.
  - apply (R2 (Alias "q") (set_isRequired true port));
      [constructor | reflexivity].
Defined.

(** ** Commutation *)

(** C7. Alias(a), Secret and Required commute: for any node and any two
    of these modifiers, unless they are two Alias modifiers with
    different arguments, applying one then the other leaves the node in
    the same state as applying them the other way round. *)
Theorem simple_modifiers_commute (m1 m2 : OptNode) (n : node) :
  simple m1 -> simple m2 -> ~ reorders_aliases m1 m2 ->
  (m1 ;; m2) n = (m2 ;; m1) n.
Proof.
  intros [a | |] [b | |] H; try reflexivity.
  destruct (string_dec a b) as [-> | D]; [reflexivity |].
  exfalso. apply H. exists a, b. auto.
Qed.

(** Two different aliases do not commute: the order is kept. *)
Lemma Alias_order_kept :
  (Alias "p" ;; Alias "q") zero_node = Ok (tt, set_Aliases ["p"; "q"] zero_node) /\
  (Alias "q" ;; Alias "p") zero_node = Ok (tt, set_Aliases ["q"; "p"] zero_node).
Proof. split; reflexivity. Qed.

Lemma Alias_Secret_distinct a : Alias a <> Secret.
Proof.
  intros E. apply (f_equal (fun m => m zero_node)) in E.
  rewrite Alias_run, Secret_run in E. discriminate E.
Qed.

Lemma simple_modifiers_commute_witness :
  (Alias "p" ;; Secret) port = (Secret ;; Alias "p") port.
Proof.
  apply (simple_modifiers_commute (Alias "p") Secret port);
    [constructor | constructor |].
  intros (a & b & _ & _ & E). exact (Alias_Secret_distinct b (eq_sym E)).
Defined.

(** ** Panics *)

(** A modifier handed in from elsewhere may panic, and then so does the
    group that cascades it. *)
Lemma Group_nilOptNode_panics n :
  Group {| prefix := "a"; opts := [nilOptNode] |} n = Panic.
Proof. reflexivity. Qed.






(** * Further properties of node.go *)

(** ** Strings *)

Lemma length_append (s t : string) :
  String.length (s ++ t) = String.length s + String.length t.
Proof. induction s as [| c s IH]; simpl; [reflexivity | now rewrite IH]. Qed.

Lemma colon_free_no_colon (s t u : string) :
  colon_free s = true -> s <> (t ++ ":" ++ u)%string.
Proof.
  revert t. induction s as [| c s IH]; intros t Hs E.
  - destruct t; discriminate E.
  - simpl in Hs. apply andb_prop in Hs as [Hc Hs].
    destruct t as [| d t]; simpl in E; injection E as -> E'.
    + discriminate Hc.
    + exact (IH t Hs E').
Qed.

(** A colon-free prefix before a colon is determined by the whole. *)
Lemma colon_split_unique (c1 c2 n1 n2 : string) :
  colon_free c1 = true -> colon_free c2 = true ->
  (c1 ++ ":" ++ n1 = c2 ++ ":" ++ n2)%string -> c1 = c2 /\ n1 = n2.
Proof.
  revert c2. induction c1 as [| a c1 IH]; intros [| b c2] H1 H2 E; simpl in *.
  - injection E as ->. split; reflexivity.
  - injection E as <- _. discriminate H2.
  - injection E as -> _. discriminate H1.
  - injection E as -> E'.
    apply andb_prop in H1 as [_ H1]. apply andb_prop in H2 as [_ H2].
    destruct (IH c2 H1 H2 E') as [-> ->]. split; reflexivity.
Qed.

(** ** source *)

(** X1. source never returns the empty string: whatever setSource holds,
    the node is reported with a non-empty source tag. *)
Theorem source_never_empty (n : node) :
  exists s, source n = Ok (s, n) /\ s <> "".
Proof.
  eexists. split; [apply source_run |].
  destruct (String.eqb_spec (setSource n) "") as [E | D];
    [discriminate | exact D].
Qed.

(** X2. source answers "default" exactly when setSource is empty or is
    itself the string "default": a source that tags itself "default"
    cannot be told from no source at all. *)
Theorem source_default_iff (n : node) :
  source n = Ok ("default", n) <->
  (setSource n = "" \/ setSource n = "default").
Proof.
  rewrite source_run.
  destruct (String.eqb_spec (setSource n) "") as [E | D]; split.
  - intros _. left. exact E.
  - intros _. reflexivity.
  - intros H. right. congruence.
  - intros [H | H]; [contradiction | rewrite H; reflexivity].
Qed.

Lemma source_default_iff_witness :
  source (set_Aliases [] port) = Ok ("default", set_Aliases [] port).
Proof.
  apply (proj2 (source_default_iff (set_Aliases [] port))).
  left. reflexivity.
Defined.

(** ** pathName *)

(** X3. pathName returns the bare Name exactly when caller is empty: with
    a caller the result is strictly longer than Name. *)
Theorem pathName_is_Name_iff (n : node) :
  pathName n = Ok (Name n, n) <-> caller n = "".
Proof.
  rewrite pathName_run.
  destruct (String.eqb_spec (caller n) "") as [E | D]; split; trivial.
  - intros H. exfalso.
    assert (L : String.length (caller n ++ ":" ++ Name n)
                = String.length (Name n)) by congruence.
    rewrite !length_append in L. simpl in L. lia.
  - contradiction.
Qed.

Lemma pathName_is_Name_iff_witness :
  pathName port = Ok (Name port, port).
Proof.
  apply (proj2 (pathName_is_Name_iff port)). reflexivity.
Defined.

(** X4. When neither caller nor Name contains a colon, pathName tells two
    options apart: nodes with the same pathName have the same caller and
    the same Name. *)
Theorem pathName_injective (n1 n2 : node) (s : string) :
  colon_free (caller n1) = true -> colon_free (Name n1) = true ->
  colon_free (caller n2) = true -> colon_free (Name n2) = true ->
  pathName n1 = Ok (s, n1) -> pathName n2 = Ok (s, n2) ->
  caller n1 = caller n2 /\ Name n1 = Name n2.
Proof.
  intros C1 N1 C2 N2. rewrite !pathName_run. intros H1 H2.
  injection H1 as H1. injection H2 as H2. subst s.
  destruct (String.eqb_spec (caller n1) "") as [E1 | D1],
           (String.eqb_spec (caller n2) "") as [E2 | D2].
  - split; congruence.
  - exfalso. exact (colon_free_no_colon _ _ _ N1 (eq_sym H2)).
  - exfalso. exact (colon_free_no_colon _ _ _ N2 H2).
  - destruct (colon_split_unique _ _ _ _ C2 C1 H2) as [-> ->].
    split; reflexivity.
Qed.

Lemma pathName_injective_witness :
  caller port_env = caller (set_isSecret false port_env) /\
  Name port_env = Name (set_isSecret false port_env).
Proof.
  apply (pathName_injective port_env (set_isSecret false port_env)
           "main.go:port"); reflexivity.
Defined.

(** With colons allowed the same pathName can stand for two different
    options. *)
Lemma pathName_collision :
  let n1 := {| Name := "b:c"; Description := ""; Aliases := []; Value := None;
               setSource := ""; isSecret := false; isRequired := false;
               caller := "a" |} in
  let n2 := {| Name := "c"; Description := ""; Aliases := []; Value := None;
               setSource := ""; isSecret := false; isRequired := false;
               caller := "a:b" |} in
  pathName n1 = Ok ("a:b:c", n1) /\ pathName n2 = Ok ("a:b:c", n2).
Proof. split; reflexivity. Qed.

(** ** Many aliases *)

(** X5. Applying Alias(a1), ..., Alias(ak) one after the other appends
    a1, ..., ak to the aliases in that order, whatever the strings and
    however many; nothing else changes. *)
Theorem Alias_many (l : list string) (n : node) :
  exists n', runOpts (map Alias l) n = Ok (tt, n') /\
             Aliases n' = (Aliases n ++ l)%list /\ same_but_Aliases n n'.
Proof.
  revert n. induction l as [| a l IH]; intros n; simpl.
  - exists n. rewrite app_nil_r. repeat split.
  - destruct (IH (set_Aliases (Aliases n ++ [a]) n))
      as (n' & E & A & N & D & V & S & I & R & C).
    exists n'. rewrite (bind_Ok _ _ _ _ _ (Alias_run a n)).
    split; [exact E | split].
    + rewrite A. simpl. rewrite <- app_assoc. reflexivity.
    + repeat split; assumption.
Qed.

(** ** What no built-in modifier does *)

(** X6. No built-in modifier, a Group of built-in modifiers included,
    touches Description, Value, setSource or caller; so source reports
    the same tag after the modifier as before it. *)
Theorem builtin_keeps_provenance (m : OptNode) (n : node) :
  builtin m ->
  exists n' s, m n = Ok (tt, n') /\ same_provenance n n' /\
               source n = Ok (s, n) /\ source n' = Ok (s, n').
Proof.
  intros Hm.
  destruct (builtin_respects same_provenance) with (m := m) (n := n)
    as (n' & E & P); trivial.
  - intros n0. repeat split.
  - intros n1 n2 n3 (D1 & V1 & S1 & C1) (D2 & V2 & S2 & C2).
    repeat split; congruence.
  - intros v n0. repeat split.
  - intros v n0. repeat split.
  - intros n0. repeat split.
  - intros n0. repeat split.
  - exists n'. eexists. split; [exact E | split; [exact P |]].
    split; [apply source_run |].
    destruct P as (_ & _ & S & _). rewrite source_run, S. reflexivity.
Qed.

Lemma builtin_keeps_provenance_witness :
  exists n' s, Group grp_db port_env = Ok (tt, n') /\
               same_provenance port_env n' /\
               source port_env = Ok (s, port_env) /\ source n' = Ok (s, n').
Proof.
  apply (builtin_keeps_provenance (Group grp_db) port_env).
  repeat constructor.
Defined.

Section BuiltinAppend.

(** As [builtin_respects], for a relation that only has to hold for the
    assignment Alias makes, an append. *)
Variable R : node -> node -> Prop.
Hypothesis R_refl : forall n, R n n.
Hypothesis R_trans : forall n1 n2 n3, R n1 n2 -> R n2 n3 -> R n1 n3.
Hypothesis R_Name : forall v n, R n (set_Name v n).
Hypothesis R_append : forall a n, R n (set_Aliases (Aliases n ++ [a]) n).
Hypothesis R_isSecret : forall n, R n (set_isSecret true n).
Hypothesis R_isRequired : forall n, R n (set_isRequired true n).

Lemma builtin_respects_append m n :
  builtin m -> exists n', m n = Ok (tt, n') /\ R n n'.
Proof.
  intros H. revert n.
  induction H using builtin_mut
    with (P0 := fun l => forall n, exists n', runOpts l n = Ok (tt, n') /\ R n n');
    intros n.
  - eexists; split; [apply Alias_run | apply R_append].
  - eexists; split; [apply Secret_run | apply R_isSecret].
  - eexists; split; [apply Required_run | apply R_isRequired].
  - rewrite Group_run. unfold applyOpts.
    destruct (IHbuiltin (set_Name (key g (Name n)) n)) as (n' & E & Hn').
    exists n'. split; [exact E |].
    eapply R_trans; [apply R_Name | exact Hn'].
  - exists n. split; [reflexivity | apply R_refl].
  - simpl. destruct (IHbuiltin n) as (n1 & E1 & H1).
    destruct (IHbuiltin0 n1) as (n2 & E2 & H2).
    exists n2. rewrite (bind_Ok _ _ _ _ _ E1).
    split; [exact E2 | eapply R_trans; eassumption].
Qed.

End BuiltinAppend.

(** X7. Aliases is append-only under the built-in modifiers: whatever
    built-in modifier runs, a Group of built-in modifiers included, the
    aliases afterwards are the former aliases followed by new ones; no
    entry is removed, replaced or moved. *)
Theorem builtin_aliases_append_only (m : OptNode) (n : node) :
  builtin m ->
  exists n' added, m n = Ok (tt, n') /\
                   Aliases n' = (Aliases n ++ added)%list /\
                   length (Aliases n) <= length (Aliases n').
Proof.
  intros Hm.
  destruct (builtin_respects_append
              (fun n n' => exists l, Aliases n' = (Aliases n ++ l)%list))
    with (m := m) (n := n) as (n' & E & l & A); trivial.
  - intros n0. exists []. simpl. now rewrite app_nil_r.
  - intros n1 n2 n3 [l1 A1] [l2 A2]. exists (l1 ++ l2)%list.
    rewrite A2, A1, app_assoc. reflexivity.
  - intros v n0. exists []. simpl. now rewrite app_nil_r.
  - intros a n0. exists [a]. reflexivity.
  - intros n0. exists []. simpl. now rewrite app_nil_r.
  - intros n0. exists []. simpl. now rewrite app_nil_r.
  - exists n', l. split; [exact E | split; [exact A |]].
    rewrite A, length_app. lia.
Qed.

Lemma builtin_aliases_append_only_witness :
  exists n' added, Group grp_db port = Ok (tt, n') /\
                   Aliases n' = (Aliases port ++ added)%list /\
                   length (Aliases port) <= length (Aliases n').
Proof.
  apply (builtin_aliases_append_only (Group grp_db) port).
  repeat constructor.
Defined.

(** ** Reordering Alias, Secret and Required *)

Lemma alias_equiv_refl n : alias_equiv n n.
Proof. unfold alias_equiv. repeat split. apply Permutation_refl. Qed.

Lemma alias_equiv_trans n1 n2 n3 :
  alias_equiv n1 n2 -> alias_equiv n2 n3 -> alias_equiv n1 n3.
Proof.
  unfold alias_equiv.
  intros (A1 & B1 & P1 & C1 & D1 & E1 & F1 & G1)
         (A2 & B2 & P2 & C2 & D2 & E2 & F2 & G2).
  repeat split; try congruence.
  eapply Permutation_trans; eassumption.
Qed.

Ltac alias_equiv_fields :=
  unfold alias_equiv in *; simpl;
  match goal with
  | H : _ /\ _ |- _ => decompose [and] H; clear H
  end;
  repeat split; try assumption.

(** One simple modifier, run from two nodes that agree up to the order
    of their aliases, leaves them agreeing so. *)
Lemma simple_alias_equiv m n n' :
  simple m -> alias_equiv n n' ->
  exists n1 n2, m n = Ok (tt, n1) /\ m n' = Ok (tt, n2) /\ alias_equiv n1 n2.
Proof.
  intros [a | |] H; do 2 eexists;
    (split; [reflexivity | split; [reflexivity |]]); alias_equiv_fields.
  apply Permutation_app_tail. assumption.
Qed.

(** Two simple modifiers in either order. *)
Lemma simple_swap_alias_equiv x y n n' :
  simple x -> simple y -> alias_equiv n n' ->
  exists n1 n2, (y ;; x) n = Ok (tt, n1) /\ (x ;; y) n' = Ok (tt, n2) /\
                alias_equiv n1 n2.
Proof.
  intros [a | |] [b | |] H; do 2 eexists;
    (split; [reflexivity | split; [reflexivity |]]); alias_equiv_fields;
    try (apply Permutation_app_tail; assumption).
  rewrite <- !app_assoc. apply Permutation_app; [assumption |].
  simpl. apply perm_swap.
Qed.

Lemma runOpts_simple_alias_equiv l :
  Forall simple l ->
  forall n n', alias_equiv n n' ->
  exists n1 n2, runOpts l n = Ok (tt, n1) /\ runOpts l n' = Ok (tt, n2) /\
                alias_equiv n1 n2.
Proof.
  induction 1 as [| m l Hm _ IH]; intros n n' H; simpl.
  - exists n, n'. split; [reflexivity | split; [reflexivity | exact H]].
  - destruct (simple_alias_equiv m n n' Hm H) as (p & p' & E & E' & Hp).
    destruct (IH p p' Hp) as (q & q' & F & F' & Hq).
    exists q, q'. rewrite (bind_Ok _ _ _ _ _ E), (bind_Ok _ _ _ _ _ E').
    auto.
Qed.

Lemma simple_permutation_equiv l1 l2 :
  Permutation l1 l2 -> Forall simple l1 ->
  forall n n', alias_equiv n n' ->
  exists n1 n2, runOpts l1 n = Ok (tt, n1) /\ runOpts l2 n' = Ok (tt, n2) /\
                alias_equiv n1 n2.
Proof.
  induction 1 as [| x l l' P IH | x y l | l l' l'' P1 IH1 P2 IH2];
    intros F n n' H.
  - exists n, n'. split; [reflexivity | split; [reflexivity | exact H]].
  - inversion F as [| ? ? Hx Fl]; subst.
    destruct (simple_alias_equiv x n n' Hx H) as (p & p' & E & E' & Hp).
    destruct (IH Fl p p' Hp) as (q & q' & G & G' & Hq).
    exists q, q'. simpl.
    rewrite (bind_Ok _ _ _ _ _ E), (bind_Ok _ _ _ _ _ E'). auto.
  - inversion F as [| ? ? Hy F']; subst. inversion F' as [| ? ? Hx Fl]; subst.
    destruct (simple_swap_alias_equiv x y n n' Hx Hy H)
      as (p & p' & E & E' & Hp).
    destruct (runOpts_simple_alias_equiv l Fl p p' Hp) as (q & q' & G & G' & Hq).
    exists q, q'. simpl. rewrite <- !bind_assoc.
    rewrite (bind_Ok _ _ _ _ _ E), (bind_Ok _ _ _ _ _ E'). auto.
  - assert (F' : Forall simple l') by (eapply Permutation_Forall; eassumption).
    destruct (IH1 F n n (alias_equiv_refl n)) as (p & q & E & G & Hpq).
    destruct (IH2 F' n n' H) as (q' & r & G' & K & Hqr).
    rewrite G in G'. injection G' as <-.
    exists p, r. split; [exact E | split; [exact K |]].
    eapply alias_equiv_trans; eassumption.
Qed.

(** X8. Any number of Alias, Secret and Required modifiers may be applied
    in any order: two orders of the same modifiers both return, and the
    nodes they leave agree in every field, the aliases being the same
    entries possibly in another order. *)
Theorem simple_permutation (l1 l2 : list OptNode) (n : node) :
  Forall simple l1 -> Permutation l1 l2 ->
  exists n1 n2, runOpts l1 n = Ok (tt, n1) /\ runOpts l2 n = Ok (tt, n2) /\
                alias_equiv n1 n2.
Proof.
  intros F P.
  exact (simple_permutation_equiv l1 l2 P F n n (alias_equiv_refl n)).
Qed.

Lemma simple_permutation_witness :
  exists n1 n2,
    runOpts [Alias "p"; Secret; Alias "q"] port = Ok (tt, n1) /\
    runOpts [Alias "q"; Alias "p"; Secret] port = Ok (tt, n2) /\
    alias_equiv n1 n2.
Proof.
  apply (simple_permutation [Alias "p"; Secret; Alias "q"]
           [Alias "q"; Alias "p"; Secret] port).
  - repeat constructor.
  - eapply perm_trans; [apply perm_skip, perm_swap | apply perm_swap].
Defined.

(** ** Flags and groups *)

Section FlagFirst.

(** An assignment [f] that no built-in modifier reads or undoes. *)
Variable f : node -> node.
Hypothesis f_Name : forall n, Name (f n) = Name n.
Hypothesis f_Aliases : forall n, Aliases (f n) = Aliases n.
Hypothesis f_set_Name : forall v n, set_Name v (f n) = f (set_Name v n).
Hypothesis f_set_Aliases :
  forall v n, set_Aliases v (f n) = f (set_Aliases v n).
Hypothesis f_set_isSecret :
  forall n, set_isSecret true (f n) = f (set_isSecret true n).
Hypothesis f_set_isRequired :
  forall n, set_isRequired true (f n) = f (set_isRequired true n).

Lemma builtin_after_flag m n :
  builtin m -> exists n', m n = Ok (tt, n') /\ m (f n) = Ok (tt, f n').
Proof.
  intros H. revert n.
  induction H using builtin_mut
    with (P0 := fun l => forall n, exists n',
                  runOpts l n = Ok (tt, n') /\ runOpts l (f n) = Ok (tt, f n'));
    intros n.
  - eexists. split; [apply Alias_run |].
    rewrite Alias_run, f_Aliases, f_set_Aliases. reflexivity.
  - eexists. split; [apply Secret_run |].
    rewrite Secret_run, f_set_isSecret. reflexivity.
  - eexists. split; [apply Required_run |].
    rewrite Required_run, f_set_isRequired. reflexivity.
  - rewrite !Group_run. unfold applyOpts.
    rewrite f_Name, f_set_Name. apply IHbuiltin.
  - exists n. split; reflexivity.
  - simpl. destruct (IHbuiltin n) as (n1 & E1 & F1).
    destruct (IHbuiltin0 n1) as (n2 & E2 & F2).
    exists n2. rewrite (bind_Ok _ _ _ _ _ E1), (bind_Ok _ _ _ _ _ F1).
    split; assumption.
Qed.

End FlagFirst.

(** X9. Secret and Required may stand before or after any built-in
    modifier, a Group of built-in modifiers included: marking the node
    first and then applying the modifier leaves the node as applying the
    modifier first and marking it afterwards. *)
Theorem flags_commute_with_builtin (m : OptNode) (n : node) :
  builtin m ->
  (Secret ;; m) n = (m ;; Secret) n /\
  (Required ;; m) n = (m ;; Required) n.
Proof.
  intros Hm. split.
  - destruct (builtin_after_flag (set_isSecret true)) with (m := m) (n := n)
      as (n' & E & F); trivial.
    rewrite (bind_Ok _ _ _ _ _ (Secret_run n)), (bind_Ok _ _ _ _ _ E).
    rewrite F, Secret_run. reflexivity.
  - destruct (builtin_after_flag (set_isRequired true)) with (m := m) (n := n)
      as (n' & E & F); trivial.
    rewrite (bind_Ok _ _ _ _ _ (Required_run n)), (bind_Ok _ _ _ _ _ E).
    rewrite F, Required_run. reflexivity.
Qed.

Lemma flags_commute_with_builtin_witness :
  (Secret ;; Group grp_db) port = (Group grp_db ;; Secret) port /\
  (Required ;; Group grp_db) port = (Group grp_db ;; Required) port.
Proof.
  apply (flags_commute_with_builtin (Group grp_db) port).
  repeat constructor.
Defined.

(** An alias does not move across a group so freely: a group that
    cascades an alias of its own fixes the order. *)
Lemma Alias_Group_order_kept :
  (Alias "p" ;; Group grp_db) port
    = Ok (tt, set_isRequired true
                (set_Aliases ["p"; "p"; "d"] (set_Name "db.port" port))) /\
  (Group grp_db ;; Alias "p") port
    = Ok (tt, set_isRequired true
                (set_Aliases ["p"; "d"; "p"] (set_Name "db.port" port))).
Proof. split; reflexivity. Qed.
